(** * Editor.js: a shallow embedding of the Quill wrapper [Editor]

    The wrapper is glue code around Quill and eventemitter3.  We embed
    - the JS values the methods inspect ([jsval]) and JS truthiness,
    - [Link.sanitize] as installed by the constructor,
    - the index defaulting of [insertHTML] / [insertText] and the
      coercion of [setHTML], over an abstract Quill interface,
    - [getHTML] over a DOM store of node trees addressed by
      (root, child path), so that the in-place mutation of
      [paragraph.style] is performed on a concrete node of the store,
    - Quill's process-wide format registry and the constructor's
      assignment to the shared [Link] class object,
    - eventemitter3's listener list and [emit]. *)

From Stdlib Require Import ZArith Ascii String List Bool Lia.
Import ListNotations.
Open Scope string_scope.
Open Scope Z_scope.
Set Warnings "-register-all".

(** ** JavaScript values *)

(** Numbers: [NaN] and finite integral values.  Non-integral finite
    numbers behave like non-zero integers for every operation used
    below (truthiness and [=== 0]). *)
Inductive number :=
| NaN
| Fin (z : Z).

Inductive jsval :=
| JUndef
| JNull
| JBool (b : bool)
| JNum (n : number)
| JStr (s : string)
| JObj (id : nat).

(** [ToBoolean]. *)
Definition truthy (v : jsval) : bool :=
  match v with
  | JUndef | JNull => false
  | JBool b => b
  | JNum NaN => false
  | JNum (Fin z) => negb (z =? 0)
  | JStr s => negb (String.eqb s "")
  | JObj _ => true
  end.

(** [v === 0]. *)
Definition strict_eq_zero (v : jsval) : bool :=
  match v with
  | JNum (Fin z) => z =? 0
  | _ => false
  end.

(** [a || b]. *)
Definition js_or (a b : jsval) : jsval := if truthy a then a else b.

(** ** [String.prototype.indexOf] *)

Fixpoint indexOf_from (needle hay : string) (pos : Z) : Z :=
  if String.prefix needle hay then pos
  else match hay with
       | EmptyString => -1
       | String _ rest => indexOf_from needle rest (pos + 1)
       end.

(** [hay.indexOf(needle)] *)
Definition indexOf (hay needle : string) : Z := indexOf_from needle hay 0.

(** ** [Link.sanitize] as installed by the constructor (Editor.js 33-40) *)

Definition sanitize (url : string) : string :=
  let urlStartsWithHttp := indexOf url "http" =? 0 in
  if negb urlStartsWithHttp then "https://" ++ url else url.

(** The claim's reading of an HTTP prefix: one of the two scheme
    prefixes [http://] and [https://]. *)
Definition has_http_scheme (url : string) : bool :=
  String.prefix "http://" url || String.prefix "https://" url.

Open Scope list_scope.

(** ** The Quill API the wrapper calls *)

(** Quill is a third-party library: the wrapper only forwards to it.  The
    methods used by [insertHTML], [insertText] and [setHTML] form an
    interface; [pasteHTML] is overloaded in Quill and appears as two
    members. *)
Class QuillApi (Q : Type) := {
  q_getLength : Q -> Z;
  q_pasteHTML : Q -> jsval -> Q;                       (* pasteHTML(html) *)
  q_pasteHTML_at : Q -> jsval -> jsval -> Q;           (* pasteHTML(index, html) *)
  q_insertText : Q -> jsval -> jsval -> jsval -> jsval -> Q
                                                       (* insertText(index, text, name, value) *)
}.

Section Facade.
Context {Q : Type} `{QuillApi Q}.

(** [Editor.prototype.getLength] (146-148) *)
Definition getLength (quill : Q) : jsval := JNum (Fin (q_getLength quill)).

(** [Editor.prototype.setHTML] (70-73) *)
Definition setHTML (quill : Q) (html : jsval) : Q :=
  let html := js_or html (JStr "") in
  q_pasteHTML quill html.

(** [Editor.prototype.insertHTML] (95-100) *)
Definition insertHTML (quill : Q) (html index : jsval) : Q :=
  let index := if negb (truthy index) && negb (strict_eq_zero index)
               then getLength quill else index in
  q_pasteHTML_at quill index html.

(** [Editor.prototype.insertText] (116-122) *)
Definition insertText (quill : Q) (text name index : jsval) : Q :=
  let index := if negb (truthy index) && negb (strict_eq_zero index)
               then getLength quill else index in
  q_insertText quill index text name (JBool true).

End Facade.

(** A Quill stand-in that records every call it receives, with a fixed
    content length. *)
Inductive quill_call :=
| CallPasteHTML (html : jsval)
| CallPasteHTMLAt (index html : jsval)
| CallInsertText (index text name value : jsval).

Record recorder := { rec_length : Z; rec_calls : list quill_call }.

Definition rec_push (r : recorder) (c : quill_call) : recorder :=
  {| rec_length := rec_length r; rec_calls := rec_calls r ++ [c] |}.

#[export] Instance recorder_quill : QuillApi recorder := {
  q_getLength := rec_length;
  q_pasteHTML := fun r h => rec_push r (CallPasteHTML h);
  q_pasteHTML_at := fun r i h => rec_push r (CallPasteHTMLAt i h);
  q_insertText := fun r i t n v => rec_push r (CallInsertText i t n v)
}.

(** The JS values that are falsy and not [=== 0], listed one by one: an
    omitted argument ([undefined]), [null], [false], [NaN] and [""]. *)
Definition falsy_nonzero (v : jsval) : bool :=
  match v with
  | JUndef | JNull | JBool false | JNum NaN | JStr EmptyString => true
  | _ => false
  end.

(** ** A DOM store *)

(** An attribute of an element, in the order of the element's attribute
    list.  The [style] attribute is kept apart from the others because
    the CSSOM rewrites its value whenever the declarations of
    [el.style] change. *)
Inductive attr :=
| AttrPlain (name value : string)
| AttrStyle (value : string).

(** Elements carry their tag (lower case), their attributes, the
    declarations of their inline style block and their children.  The
    declarations are (longhand property, value) pairs in declaration
    order: a parsed [style="margin: 1px"] holds the four longhands
    [margin-top], [margin-right], [margin-bottom] and [margin-left]. *)
Inductive node :=
| Element (tag : string) (attrs : list attr)
          (style : list (string * string)) (children : list node)
| Text (data : string).

(** Induction on trees, with the hypothesis for every child. *)
Section node_ind_all.
Variable P : node -> Prop.
Hypothesis HText : forall d, P (Text d).
Hypothesis HElement : forall t a s cs, Forall P cs -> P (Element t a s cs).

Fixpoint node_ind_all (n : node) : P n :=
  match n with
  | Text d => HText d
  | Element t a s cs =>
      HElement t a s cs
        ((fix go (cs : list node) : Forall P cs :=
            match cs with
            | [] => Forall_nil P
            | c :: cs' => Forall_cons c (node_ind_all c) (go cs')
            end) cs)
  end.
End node_ind_all.

(** The store holds the roots of all node trees alive: the document
    and the detached trees created by [document.createElement].  A node
    is addressed by its root and its child-index path. *)
Definition store := list node.
Definition ref := (nat * list nat)%type.

Inductive result (S A : Type) :=
| Ok (s : S) (v : A)
| Throw (msg : string).
Arguments Ok {S A}.
Arguments Throw {S A}.

Fixpoint update_nth {A} (l : list A) (i : nat) (f : A -> A) : list A :=
  match l, i with
  | [], _ => []
  | x :: l', O => f x :: l'
  | x :: l', S i' => x :: update_nth l' i' f
  end.

Fixpoint node_at (n : node) (p : list nat) : option node :=
  match p with
  | [] => Some n
  | i :: p' =>
      match n with
      | Element _ _ _ cs =>
          match nth_error cs i with
          | Some c => node_at c p'
          | None => None
          end
      | Text _ => None
      end
  end.

Fixpoint update_at (n : node) (p : list nat) (f : node -> node) : node :=
  match p with
  | [] => f n
  | i :: p' =>
      match n with
      | Element t a s cs => Element t a s (update_nth cs i (fun ch => update_at ch p' f))
      | Text d => Text d
      end
  end.

Definition deref (st : store) (r : ref) : option node :=
  match nth_error st (fst r) with
  | Some root => node_at root (snd r)
  | None => None
  end.

Definition store_update (st : store) (r : ref) (f : node -> node) : store :=
  update_nth st (fst r) (fun root => update_at root (snd r) f).

(** The value of the attribute [name] (not [style]), if present. *)
Fixpoint attr_value (a : list attr) (name : string) : option string :=
  match a with
  | [] => None
  | AttrPlain n v :: a' => if String.eqb n name then Some v else attr_value a' name
  | AttrStyle _ :: a' => attr_value a' name
  end.

(** Splitting on ASCII whitespace (tab, LF, FF, CR, space), as the
    class list is read from the [class] attribute. *)
Definition ascii_ws (c : ascii) : bool :=
  existsb (Ascii.eqb c) [ascii_of_nat 9; ascii_of_nat 10; ascii_of_nat 12;
                         ascii_of_nat 13; " "%char].

Fixpoint ws_pieces (s : string) : list string :=
  match s with
  | EmptyString => [EmptyString]
  | String c s' =>
      let ps := ws_pieces s' in
      if ascii_ws c then EmptyString :: ps
      else match ps with
           | p :: ps' => String c p :: ps'
           | [] => [String c EmptyString]
           end
  end.

Definition class_list (a : list attr) : list string :=
  match attr_value a "class" with
  | Some v => filter (fun w => negb (String.eqb w "")) (ws_pieces v)
  | None => []
  end.

(** Selectors used by the wrapper: [".ql-editor"] and ["p"]. *)
Inductive selector :=
| SelClass (c : string)
| SelTag (t : string).

Definition matches (sel : selector) (n : node) : bool :=
  match n, sel with
  | Element _ a _ _, SelClass c => existsb (String.eqb c) (class_list a)
  | Element t _ _ _, SelTag t' => String.eqb t t'
  | Text _, _ => false
  end.

Fixpoint paths_in (f : node -> list (list nat)) (cs : list node) (i : nat)
  : list (list nat) :=
  match cs with
  | [] => []
  | c :: cs' => map (cons i) (f c) ++ paths_in f cs' (S i)
  end.

(** Paths of the nodes of [n] (itself included) matching [sel], in
    document (pre-)order. *)
Fixpoint match_paths (sel : selector) (n : node) : list (list nat) :=
  (if matches sel n then [[]] else []) ++
  match n with
  | Element _ _ _ cs => paths_in (match_paths sel) cs 0
  | Text _ => []
  end.

(** Matching descendants only, as [querySelectorAll] scans them. *)
Definition descendant_paths (sel : selector) (n : node) : list (list nat) :=
  match n with
  | Element _ _ _ cs => paths_in (match_paths sel) cs 0
  | Text _ => []
  end.

(** [el.querySelectorAll(sel)]: a static list of node references. *)
Definition querySelectorAll (st : store) (el : ref) (sel : selector) : list ref :=
  match deref st el with
  | Some n => map (fun p => (fst el, snd el ++ p)) (descendant_paths sel n)
  | None => []
  end.

(** [el.querySelector(sel)]: the first match, or [null]. *)
Definition querySelector (st : store) (el : ref) (sel : selector) : option ref :=
  hd_error (querySelectorAll st el sel).

(** [document.createElement(tag)]: a fresh detached root. *)
Definition createElement (st : store) (tag : string) : store * ref :=
  (st ++ [Element tag [] [] []], (length st, [])).

(** ** The CSSOM of [el.style] *)

Definition decls := list (string * string).

(** Setting one longhand declaration ("set a CSS declaration"): an
    existing declaration is updated in place, a new one goes last. *)
Definition style_set (s : decls) (prop value : string) : decls :=
  if existsb (fun kv => String.eqb (fst kv) prop) s
  then map (fun kv => if String.eqb (fst kv) prop then (prop, value) else kv) s
  else s ++ [(prop, value)].

Fixpoint style_lookup (s : decls) (prop : string) : option string :=
  match s with
  | [] => None
  | (k, v) :: s' => if String.eqb k prop then Some v else style_lookup s' prop
  end.

Fixpoint decls_eqb (s1 s2 : decls) : bool :=
  match s1, s2 with
  | [], [] => true
  | (k1, v1) :: s1', (k2, v2) :: s2' =>
      String.eqb k1 k2 && String.eqb v1 v2 && decls_eqb s1' s2'
  | _, _ => false
  end.

(** The longhands a property sets: the four sides of the box shorthands
    [margin] and [padding], in the order top, right, bottom, left. *)
Definition longhands (prop : string) : list string :=
  if String.eqb prop "margin" || String.eqb prop "padding"
  then map (fun side => (prop ++ "-" ++ side)%string) ["top"; "right"; "bottom"; "left"]
  else [prop].

(** [el.style[prop] = value] with [value] already parsed: every longhand
    of [prop] is set in turn. *)
Definition set_property (s : decls) (prop value : string) : decls :=
  fold_left (fun s l => style_set s l value) (longhands prop) s.

(** The box shorthand a longhand belongs to. *)
Definition shorthand_of (prop : string) : option string :=
  if existsb (String.eqb prop) (longhands "margin") then Some "margin"
  else if existsb (String.eqb prop) (longhands "padding") then Some "padding"
  else None.

(** The shortest value of a box shorthand from its four sides. *)
Definition box_value (t r b l : string) : string :=
  if String.eqb r l then
    if String.eqb t b then
      if String.eqb t r then t else (t ++ " " ++ r)%string
    else (t ++ " " ++ r ++ " " ++ b)%string
  else (t ++ " " ++ r ++ " " ++ b ++ " " ++ l)%string.

(** Serialising a declaration block: in declaration order, a longhand
    whose shorthand has all four longhands declared is written as that
    shorthand, once, at the position of the first of them. *)
Fixpoint css_decls (s all : decls) (done : list string) : list string :=
  match s with
  | [] => []
  | (k, v) :: s' =>
      if existsb (String.eqb k) done then css_decls s' all done
      else
        let plain := (k ++ ": " ++ v ++ ";")%string :: css_decls s' all (k :: done) in
        match shorthand_of k with
        | Some sh =>
            match map (style_lookup all) (longhands sh) with
            | [Some t; Some r; Some b; Some l] =>
                (sh ++ ": " ++ box_value t r b l ++ ";")%string
                  :: css_decls s' all (longhands sh ++ done)
            | _ => plain
            end
        | None => plain
        end
  end.

(** [el.style.cssText] *)
Definition css_text (s : decls) : string := String.concat " " (css_decls s s []).

Definition is_style_attr (x : attr) : bool :=
  match x with AttrStyle _ => true | AttrPlain _ _ => false end.

Definition has_style_attr (a : list attr) : bool := existsb is_style_attr a.

(** "Update style attribute": the [style] attribute takes the value
    [text], changed in place or added last. *)
Definition set_style_attr (a : list attr) (text : string) : list attr :=
  if has_style_attr a
  then map (fun x => if is_style_attr x then AttrStyle text else x) a
  else a ++ [AttrStyle text].

(** [el.style[prop] = value] on an element's attributes and declarations:
    the [style] attribute is rewritten only when a declaration changed. *)
Definition css_set (prop value : string) (a : list attr) (s : decls)
  : list attr * decls :=
  let s' := set_property s prop value in
  if decls_eqb s' s then (a, s) else (set_style_attr a (css_text s'), s').

(** [paragraph.style[prop] = value] on a node. *)
Definition set_style (prop value : string) (n : node) : node :=
  match n with
  | Element t a s cs => let '(a', s') := css_set prop value a s in Element t a' s' cs
  | Text d => Text d
  end.

Definition set_style_at (st : store) (r : ref) (prop value : string) : store :=
  store_update st r (set_style prop value).

(** The DOM keeps the [style] attribute and the declarations in step:
    the declarations are parsed from the attribute, so an element with
    declarations carries the attribute. *)
Fixpoint style_wf (n : node) : bool :=
  match n with
  | Text _ => true
  | Element _ a s cs =>
      (match s with [] => true | _ => has_style_attr a end) && forallb style_wf cs
  end.

(** ** Serialisation ([innerHTML] getter) *)

Definition dq : string := String (Ascii.ascii_of_nat 34) EmptyString.

(** Escaping one character: [&], [<] and [>] always, and the double quote in
    attribute values. *)
Definition escape_char (attr_mode : bool) (c : ascii) : string :=
  if Ascii.eqb c "&"%char then "&amp;"
  else if attr_mode && Ascii.eqb c (ascii_of_nat 34) then "&quot;"
  else if Ascii.eqb c "<"%char then "&lt;"
  else if Ascii.eqb c ">"%char then "&gt;"
  else String c EmptyString.

(** Escaping a string (UTF-8 bytes): U+00A0, the bytes C2 A0, becomes
    [&nbsp;]. *)
Fixpoint escape_string (attr_mode : bool) (s : string) : string :=
  match s with
  | EmptyString => EmptyString
  | String c s' =>
      match s' with
      | String c2 s'' =>
          if Ascii.eqb c (ascii_of_nat 194) && Ascii.eqb c2 (ascii_of_nat 160)
          then ("&nbsp;" ++ escape_string attr_mode s'')%string
          else (escape_char attr_mode c ++ escape_string attr_mode s')%string
      | EmptyString => escape_char attr_mode c
      end
  end.

Definition void_tag (t : string) : bool :=
  existsb (String.eqb t)
    ["area"; "base"; "basefont"; "bgsound"; "br"; "col"; "embed"; "frame"; "hr";
     "img"; "input"; "keygen"; "link"; "meta"; "param"; "source"; "track"; "wbr"].

(** Elements whose text children are written unescaped. *)
Definition raw_text_tag (t : string) : bool :=
  existsb (String.eqb t)
    ["style"; "script"; "xmp"; "iframe"; "noembed"; "noframes"; "plaintext"; "noscript"].

Definition attr_string (x : attr) : string :=
  match x with
  | AttrPlain n v => (" " ++ n ++ "=" ++ dq ++ escape_string true v ++ dq)%string
  | AttrStyle v => (" style=" ++ dq ++ escape_string true v ++ dq)%string
  end.

(** A node, inside a parent whose text children are raw when [raw]. *)
Fixpoint serialize (raw : bool) (n : node) : string :=
  match n with
  | Text d => if raw then d else escape_string false d
  | Element t a _ cs =>
      ("<" ++ t ++ String.concat "" (map attr_string a) ++ ">"
       ++ (if void_tag t then ""
           else String.concat "" (map (serialize (raw_text_tag t)) cs) ++ "</" ++ t ++ ">"))%string
  end.

(** The children [cs] of an element [t]. *)
Definition inner_html (t : string) (cs : list node) : string :=
  String.concat "" (map (serialize (raw_text_tag t)) cs).

(** [el.innerHTML] *)
Definition get_innerHTML (st : store) (el : ref) : string :=
  match deref st el with
  | Some (Element t _ _ cs) => inner_html t cs
  | _ => ""
  end.

(** [el.innerHTML = html], with the parsed nodes given. *)
Definition set_innerHTML (st : store) (el : ref) (cs : list node) : store :=
  store_update st el (fun n => match n with
                               | Element t a s _ => Element t a s cs
                               | Text d => Text d
                               end).

(** [Editor.prototype.getHTML] (48-64).  [this.targetEl] is the
    reference [targetEl].  [parse html] is the node list the HTML
    fragment parser builds from [html] for [tmpDiv.innerHTML = html]; it
    is left abstract.  [style.margin = 0] assigns the number [0], which
    the CSS parser reads as the length [0px]. *)
Definition getHTML (parse : string -> list node) (st : store) (targetEl : ref)
  : result store string :=
  match querySelector st targetEl (SelClass "ql-editor") with
  | None => Throw "Couldn't find editor contents"
  | Some editorContentDiv =>
      let '(st1, tmpDiv) := createElement st "div" in
      let st2 := set_innerHTML st1 tmpDiv (parse (get_innerHTML st1 editorContentDiv)) in
      let st3 := fold_left
                   (fun st paragraph =>
                      let st := set_style_at st paragraph "margin" "0px" in
                      set_style_at st paragraph "padding" "0px")
                   (querySelectorAll st2 tmpDiv (SelTag "p")) st2 in
      Ok st3 (get_innerHTML st3 tmpDiv)
  end.

(** The two assignments of the loop body, on attributes and declarations. *)
Definition p_css (a : list attr) (s : decls) : list attr * decls :=
  let '(a1, s1) := css_set "margin" "0px" a s in css_set "padding" "0px" a1 s1.

(** The normalisation as a function on trees: the two assignments on
    every [p] element. *)
Fixpoint pnorm (n : node) : node :=
  match n with
  | Text d => Text d
  | Element t a s cs =>
      let '(a', s') := if String.eqb t "p" then p_css a s else (a, s) in
      Element t a' s' (map pnorm cs)
  end.

(** The loop body of [getHTML] on one node, and the loop run over a list
    of paths inside one tree. *)
Definition p_style (n : node) : node :=
  set_style "padding" "0px" (set_style "margin" "0px" n).

Definition style_paths (n : node) (ps : list (list nat)) : node :=
  fold_left (fun m p => update_at m p p_style) ps n.

(** Every declaration of [prop] in [s] has value [value]. *)
Definition style_uniform (s : decls) (prop value : string) : bool :=
  forallb (fun kv => negb (String.eqb (fst kv) prop) || String.eqb (snd kv) value) s.

(** Each of the eight margin and padding longhands is declared, and every
    declaration of them has value [0px]. *)
Definition zero_box (s : decls) : bool :=
  forallb (fun k => existsb (fun kv => String.eqb (fst kv) k) s && style_uniform s k "0px")
          (longhands "margin" ++ longhands "padding").

(** Every [p] element of a tree carries a [style] attribute and zero
    margin and padding declarations. *)
Fixpoint p_zeroed (n : node) : bool :=
  match n with
  | Text _ => true
  | Element t a s cs =>
      (negb (String.eqb t "p") || (zero_box s && has_style_attr a))
      && forallb p_zeroed cs
  end.

(** A tree with the [style] attribute and the declarations of its [p]
    elements dropped: what [getHTML] must keep. *)
Fixpoint erase_p_styles (n : node) : node :=
  match n with
  | Text d => Text d
  | Element t a s cs =>
      if String.eqb t "p"
      then Element t (filter (fun x => negb (is_style_attr x)) a) [] (map erase_p_styles cs)
      else Element t a s (map erase_p_styles cs)
  end.

(** A page: a mount [div] whose Quill contents element holds three
    paragraphs. *)
Definition demo_contents : list node :=
  [Element "p" [] [] [Text "Hello"];
   Element "p" [AttrStyle "margin-top: 5px;"] [("margin-top", "5px")] [Text "A & B"];
   Element "p" [AttrPlain "class" "ql-align-center"; AttrStyle "color: red;"]
     [("color", "red")] [Element "br" [] [] []]].

Definition demo_page : store :=
  [Element "div" [AttrPlain "id" "editor"] []
     [Element "div" [AttrPlain "class" "ql-editor"; AttrPlain "contenteditable" "true"] []
        demo_contents]].

(** A stand-in for the HTML fragment parser: it returns [demo_contents]
    for their own serialisation, which is what the parser builds from it. *)
Definition demo_parse (html : string) : list node :=
  if String.eqb html (inner_html "div" demo_contents) then demo_contents else [Text html].

(** ** Quill's process-wide registry and the constructor *)

(** A format class object; only its static [sanitize] matters here. *)
Record format_class := { blotName : string; fc_sanitize : string -> string }.

(** A widget instance: its mount element and whether it was built by the
    facade.  Instances hold no format classes of their own. *)
Record quill_instance := { qi_container : ref; qi_by_facade : bool }.

(** The library's module-level state: [Quill.imports] and Parchment's
    blot registry map names to class objects, held in [classes] and
    addressed by index, so that both registries may point at the same
    object. *)
Record library := {
  imports : list (string * nat);
  blots : list (string * nat);
  classes : list format_class;
  instances : list quill_instance
}.

Fixpoint assoc (k : string) (l : list (string * nat)) : option nat :=
  match l with
  | [] => None
  | (k', v) :: l' => if String.eqb k k' then Some v else assoc k l'
  end.

(** [Quill.import(name)] *)
Definition quill_import (lib : library) (name : string) : option nat :=
  assoc name (imports lib).

(** [new Quill(container, options)] *)
Definition quill_new (lib : library) (container : ref) (by_facade : bool) : library :=
  {| imports := imports lib; blots := blots lib; classes := classes lib;
     instances := instances lib ++ [{| qi_container := container; qi_by_facade := by_facade |}] |}.

(** [Cls.sanitize = f] on the class object [cls]. *)
Definition set_sanitize (lib : library) (cls : nat) (f : string -> string) : library :=
  {| imports := imports lib; blots := blots lib;
     classes := update_nth (classes lib) cls
                  (fun c => {| blotName := blotName c; fc_sanitize := f |});
     instances := instances lib |}.

(** The [href] an instance stores for a link to [url]: Quill's
    [Link.create(value)] calls [this.sanitize(value)] on the class the
    blot registry holds under ["link"]; the instance is not consulted. *)
Definition link_href (lib : library) (inst : quill_instance) (url : string) : option string :=
  match assoc "link" (blots lib) with
  | Some cls =>
      match nth_error (classes lib) cls with
      | Some c => Some (fc_sanitize c url)
      | None => None
      end
  | None => None
  end.

(** ** eventemitter3 *)

Record listener := { l_event : string; l_fn : nat; l_once : bool }.

(** The listeners in registration order. *)
Definition emitter := list listener.

(** [emitter.on(event, fn)] *)
Definition ee_on (em : emitter) (event : string) (fn : nat) : emitter :=
  em ++ [{| l_event := event; l_fn := fn; l_once := false |}].

(** [emitter.once(event, fn)] *)
Definition ee_once (em : emitter) (event : string) (fn : nat) : emitter :=
  em ++ [{| l_event := event; l_fn := fn; l_once := true |}].

(** [emitter.removeListener(event, fn, undefined, once)] *)
Definition ee_removeListener (em : emitter) (event : string) (fn : nat) (once : bool)
  : emitter :=
  filter (fun l => negb (String.eqb (l_event l) event && Nat.eqb (l_fn l) fn
                         && (negb once || l_once l))) em.

(** An invocation: the handler and the arguments it is called with. *)
Definition invocation := (nat * list jsval)%type.

(** [emitter.emit(event, ...args)]: loops over the listeners registered
    for [event] when the emit starts; a [once] listener is removed before
    it is called. *)
Definition ee_emit (em : emitter) (event : string) (args : list jsval)
  : emitter * list invocation :=
  fold_left
    (fun acc l =>
       let '(em, calls) := acc in
       let em := if l_once l then ee_removeListener em event (l_fn l) true else em in
       (em, calls ++ [(l_fn l, args)]))
    (filter (fun l => String.eqb (l_event l) event) em) (em, []).

(** The facade's state. *)
Record editor := { targetEl : ref; _quill : nat; _emitter : emitter }.

(** The handler the constructor registers with [quill.on("text-change",
    ...)] (27-29): Quill calls it with [(delta, oldDelta, source)]. *)
Definition on_quill_text_change (ed : editor) (delta oldDelta source : jsval)
  : editor * list invocation :=
  let '(em, calls) := ee_emit (_emitter ed) "text-change" [] in
  ({| targetEl := targetEl ed; _quill := _quill ed; _emitter := em |}, calls).

(** [Editor.prototype.on] (181-183) *)
Definition on (ed : editor) (event : string) (fn : nat) : editor :=
  {| targetEl := targetEl ed; _quill := _quill ed; _emitter := ee_on (_emitter ed) event fn |}.

(** [Editor.prototype.off] (189-191): [emitter.off(event, fn)], i.e.
    [removeListener(event, fn)]; without [fn] every listener of [event]
    is removed. *)
Definition off (ed : editor) (event : string) (fn : option nat) : editor :=
  {| targetEl := targetEl ed; _quill := _quill ed;
     _emitter := match fn with
                 | Some f => ee_removeListener (_emitter ed) event f false
                 | None => filter (fun l => negb (String.eqb (l_event l) event)) (_emitter ed)
                 end |}.

(** [Editor.prototype.once] (197-199) *)
Definition once (ed : editor) (event : string) (fn : nat) : editor :=
  {| targetEl := targetEl ed; _quill := _quill ed; _emitter := ee_once (_emitter ed) event fn |}.

(** The [Editor] constructor (14-41). *)
Definition new_Editor (lib : library) (el : ref) : result library editor :=
  let quill := length (instances lib) in
  let lib := quill_new lib el true in
  let emitter := [] in
  let ed := {| targetEl := el; _quill := quill; _emitter := emitter |} in
  match quill_import lib "formats/link" with
  | Some Link => Ok (set_sanitize lib Link sanitize) ed
  | None => Throw "TypeError: Cannot set properties of undefined (setting 'sanitize')"
  end.

(** A library state with [bold] and [link] registered and one widget
    built by other code; the classes' [sanitize] are stand-ins for
    Quill's defaults. *)
Definition quill_default : library := {|
  imports := [("formats/bold", 0%nat); ("formats/link", 1%nat)];
  blots := [("bold", 0%nat); ("link", 1%nat)];
  classes := [{| blotName := "bold"; fc_sanitize := fun u => u |};
              {| blotName := "link"; fc_sanitize := fun u => u |}];
  instances := [{| qi_container := (0%nat, []); qi_by_facade := false |}]
|}.

(** A facade with no listeners. *)
Definition fresh_editor : editor :=
  {| targetEl := (0%nat, []); _quill := 0%nat; _emitter := [] |}.

(** * Proofs *)

(** ** [indexOf] and [sanitize] *)

Lemma indexOf_from_bound (needle hay : string) (pos : Z) :
  indexOf_from needle hay pos = -1 \/ pos <= indexOf_from needle hay pos.
Proof.
  revert pos; induction hay as [|c rest IH]; intros pos; cbn [indexOf_from].
  - destruct (String.prefix needle ""); [right; lia | left; reflexivity].
  - destruct (String.prefix needle (String c rest)); [right; lia|].
    destruct (IH (pos + 1)) as [E|E]; [left; exact E | right; lia].
Qed.

Lemma indexOf_zero_iff (hay needle : string) :
  (indexOf hay needle =? 0) = String.prefix needle hay.
Proof.
  unfold indexOf; destruct hay as [|c rest]; cbn [indexOf_from].
  - destruct (String.prefix needle ""); reflexivity.
  - destruct (String.prefix needle (String c rest)); [reflexivity|].
    destruct (indexOf_from_bound needle rest (0 + 1)) as [E|E];
      [rewrite E; reflexivity | apply Z.eqb_neq; lia].
Qed.

Lemma sanitize_eq (url : string) :
  sanitize url = if String.prefix "http" url then url else ("https://" ++ url)%string.
Proof.
  unfold sanitize; rewrite indexOf_zero_iff.
  destruct (String.prefix "http" url); reflexivity.
Qed.

(** C1 (amended): [Link.sanitize] keeps every URL whose first four
    characters are the lower-case ["http"] (so every [http://] and
    [https://] URL, but also e.g. ["httpexample.com"]) and prepends
    ["https://"] once to every other URL; it is idempotent. *)
Theorem sanitize_spec (url : string) :
  sanitize url = (if String.prefix "http" url then url else ("https://" ++ url)%string)
  /\ sanitize (sanitize url) = sanitize url.
Proof.
  split; [apply sanitize_eq|].
  rewrite (sanitize_eq url).
  destruct (String.prefix "http" url) eqn:E.
  - rewrite sanitize_eq, E; reflexivity.
  - rewrite sanitize_eq; reflexivity.
Qed.

(** C1 counterexample: ["httpexample.com"] starts with neither
    [http://] nor [https://], yet [sanitize] leaves it unchanged instead
    of prepending ["https://"]. *)
Lemma sanitize_httpexample :
  has_http_scheme "httpexample.com" = false
  /\ sanitize "httpexample.com" <> ("https://" ++ "httpexample.com")%string.
Proof. split; [reflexivity | vm_compute; discriminate]. Qed.

(** ** Index defaulting and [setHTML] *)

(** C2 (amended): [insertHTML] and [insertText] pass [getLength()] to
    Quill exactly when the index argument is falsy and not [0]: omitted
    ([undefined]), [null], [false], [NaN] or [""]; [0] and every truthy
    index are passed as given. *)
Theorem insert_index_default {Q : Type} `{QuillApi Q} (quill : Q)
    (html text name index : jsval) :
  insertHTML quill html index
    = q_pasteHTML_at quill (if falsy_nonzero index then getLength quill else index) html
  /\ insertText quill text name index
    = q_insertText quill (if falsy_nonzero index then getLength quill else index)
                   text name (JBool true).
Proof.
  unfold insertHTML, insertText.
  destruct index as [| |[]|[|z]|[|c s]|id]; simpl; try (split; reflexivity).
  destruct (z =? 0); split; reflexivity.
Qed.

(** C2 counterexample: an explicit [null] index (a supplied value, not an
    omission) is replaced by [getLength()]. *)
Lemma insertHTML_null_index :
  rec_calls (insertHTML {| rec_length := 5; rec_calls := [] |} (JStr "<b>x</b>") JNull)
  <> [CallPasteHTMLAt JNull (JStr "<b>x</b>")].
Proof. vm_compute; discriminate. Qed.

(** C3: [setHTML(undefined)] and [setHTML(null)] are [setHTML("")]: the
    same call [pasteHTML("")] reaches Quill. *)
Theorem setHTML_absent {Q : Type} `{QuillApi Q} (quill : Q) :
  setHTML quill JUndef = setHTML quill (JStr "")
  /\ setHTML quill JNull = setHTML quill (JStr "")
  /\ setHTML quill JUndef = q_pasteHTML quill (JStr "")
  /\ setHTML quill JNull = q_pasteHTML quill (JStr "").
Proof. repeat split; reflexivity. Qed.

(** ** The DOM store *)

Lemma update_nth_app_length {A} (pre l : list A) (x : A) (f : A -> A) :
  update_nth (pre ++ x :: l) (length pre) f = pre ++ f x :: l.
Proof. induction pre as [|y pre IH]; simpl; [reflexivity | now rewrite IH]. Qed.

Lemma update_nth_compose {A} (l : list A) (i : nat) (f g : A -> A) :
  update_nth (update_nth l i f) i g = update_nth l i (fun x => g (f x)).
Proof.
  revert i; induction l as [|x l IH]; intros [|i]; simpl; try reflexivity.
  now rewrite IH.
Qed.

Lemma update_nth_id {A} (l : list A) (i : nat) :
  update_nth l i (fun x => x) = l.
Proof.
  revert i; induction l as [|x l IH]; intros [|i]; simpl; try reflexivity.
  now rewrite IH.
Qed.

Lemma update_nth_ext {A} (l : list A) (i : nat) (f g : A -> A) :
  (forall x, f x = g x) -> update_nth l i f = update_nth l i g.
Proof.
  intros E; revert i; induction l as [|x l IH]; intros [|i]; simpl; try reflexivity.
  - now rewrite E.
  - now rewrite IH.
Qed.

Lemma update_at_compose (n : node) (p : list nat) (f g : node -> node) :
  update_at (update_at n p f) p g = update_at n p (fun m => g (f m)).
Proof.
  revert n; induction p as [|i p IH]; intros [t c s cs|d]; simpl; try reflexivity.
  rewrite update_nth_compose; f_equal; apply update_nth_ext; intros; apply IH.
Qed.

Lemma node_at_app (n : node) (p q : list nat) :
  node_at n (p ++ q) = match node_at n p with Some m => node_at m q | None => None end.
Proof.
  revert n; induction p as [|i p IH]; intros [t c s cs|d]; simpl; try reflexivity.
  destruct (nth_error cs i); [apply IH | reflexivity].
Qed.

Lemma nth_error_snoc_length {A} (l : list A) (x : A) :
  nth_error (l ++ [x]) (length l) = Some x.
Proof. rewrite nth_error_app2, Nat.sub_diag; reflexivity. Qed.

(** Appending a root leaves every reference that resolves unchanged. *)
Lemma deref_snoc (st : store) (x : node) (r : ref) :
  deref st r <> None -> deref (st ++ [x]) r = deref st r.
Proof.
  unfold deref; intros D.
  destruct (nth_error st (fst r)) eqn:E; [|congruence].
  rewrite nth_error_app1; [now rewrite E|].
  apply nth_error_Some; congruence.
Qed.

Lemma querySelectorAll_snoc (st : store) (x : node) (el : ref) (sel : selector) :
  deref st el <> None -> querySelectorAll (st ++ [x]) el sel = querySelectorAll st el sel.
Proof. intros D; unfold querySelectorAll; now rewrite deref_snoc. Qed.

Lemma querySelector_deref (st : store) (el r : ref) (sel : selector) :
  querySelector st el sel = Some r -> deref st el <> None.
Proof.
  unfold querySelector, querySelectorAll; destruct (deref st el); [congruence|].
  discriminate.
Qed.

Lemma in_paths_in (f : node -> list (list nat)) (cs : list node) (i : nat) (p : list nat) :
  In p (paths_in f cs i) ->
  exists j q c, p = (i + j)%nat :: q /\ nth_error cs j = Some c /\ In q (f c).
Proof.
  revert i; induction cs as [|c cs IH]; intros i H; simpl in H; [contradiction|].
  apply in_app_or in H as [H|H].
  - apply in_map_iff in H as [q [<- Hq]].
    exists 0%nat, q, c; repeat split; [f_equal; lia | exact Hq].
  - destruct (IH (S i) H) as [j [q [c' [-> [Hj Hq]]]]].
    exists (S j), q, c'; repeat split; [f_equal; lia | exact Hj | exact Hq].
Qed.

(** Every path [match_paths] lists leads to a node the selector matches. *)
Lemma match_paths_sound (sel : selector) (n : node) (p : list nat) :
  In p (match_paths sel n) -> exists m, node_at n p = Some m /\ matches sel m = true.
Proof.
  revert p; induction n as [d|t c s cs IH] using node_ind_all; intros p H;
    cbn [match_paths] in H.
  - destruct (matches sel (Text d)) eqn:M; simpl in H; [|contradiction].
    destruct H as [<-|[]]; exists (Text d); auto.
  - apply in_app_or in H as [H|H].
    + destruct (matches sel (Element t c s cs)) eqn:M; simpl in H; [|contradiction].
      destruct H as [<-|[]]; exists (Element t c s cs); auto.
    + apply in_paths_in in H as [j [q [ch [-> [Hj Hq]]]]]; simpl; rewrite Hj.
      rewrite Forall_forall in IH; apply (IH ch); [eapply nth_error_In; eauto | exact Hq].
Qed.

(** What [querySelector] returns resolves to a matching node. *)
Lemma querySelector_sound (st : store) (el r : ref) (sel : selector) :
  querySelector st el sel = Some r ->
  exists m, deref st r = Some m /\ matches sel m = true.
Proof.
  unfold querySelector, querySelectorAll.
  destruct (deref st el) as [n|] eqn:D; [|discriminate].
  destruct (descendant_paths sel n) as [|p ps] eqn:P; simpl; [discriminate|].
  intros [= <-].
  assert (Hp : In p (descendant_paths sel n)) by (rewrite P; left; reflexivity).
  destruct n as [t c s cs|d]; [|simpl in Hp; contradiction].
  apply in_paths_in in Hp as [j [q [ch [-> [Hj Hq]]]]].
  destruct (match_paths_sound sel ch q Hq) as [m [Hm Mm]].
  exists m; split; [|exact Mm].
  unfold deref in *; simpl.
  destruct (nth_error st (fst el)) as [root|]; [|discriminate].
  rewrite node_at_app, D; simpl; rewrite Hj; exact Hm.
Qed.

(** ** The paragraph loop of [getHTML] computes [pnorm] *)

Lemma p_style_elem t a s cs :
  p_style (Element t a s cs) = let '(a', s') := p_css a s in Element t a' s' cs.
Proof.
  unfold p_style, set_style, p_css.
  destruct (css_set "margin" "0px" a s) as [a1 s1]; reflexivity.
Qed.

Lemma style_paths_cons (L : list (list nat)) (i : nat) t a s cs :
  style_paths (Element t a s cs) (map (cons i) L)
  = Element t a s (update_nth cs i (fun ch => style_paths ch L)).
Proof.
  revert cs; induction L as [|p L IH]; intros cs; simpl.
  - now rewrite update_nth_id.
  - unfold style_paths in *; simpl; rewrite IH, update_nth_compose; reflexivity.
Qed.

Lemma style_paths_app (n : node) (L1 L2 : list (list nat)) :
  style_paths n (L1 ++ L2) = style_paths (style_paths n L1) L2.
Proof. unfold style_paths; apply fold_left_app. Qed.

Lemma style_paths_children (cs pre : list node) t a s :
  Forall (fun ch => style_paths ch (match_paths (SelTag "p") ch) = pnorm ch) cs ->
  style_paths (Element t a s (pre ++ cs))
              (paths_in (match_paths (SelTag "p")) cs (length pre))
  = Element t a s (pre ++ map pnorm cs).
Proof.
  revert pre; induction cs as [|x cs IH]; intros pre F; simpl; [reflexivity|].
  inversion F as [|? ? Fx Fcs]; subst.
  rewrite style_paths_app, style_paths_cons, update_nth_app_length, Fx.
  replace (S (length pre)) with (length (pre ++ [pnorm x]))
    by (rewrite length_app; simpl; lia).
  replace (pre ++ pnorm x :: cs) with ((pre ++ [pnorm x]) ++ cs)
    by (rewrite <- app_assoc; reflexivity).
  rewrite (IH _ Fcs), <- app_assoc; reflexivity.
Qed.

Lemma style_paths_pnorm (n : node) :
  style_paths n (match_paths (SelTag "p") n) = pnorm n.
Proof.
  induction n as [d|t a s cs IH] using node_ind_all; [reflexivity|].
  cbn [match_paths]; rewrite style_paths_app.
  simpl matches; cbn [pnorm].
  destruct (String.eqb t "p").
  - change (style_paths (Element t a s cs) [[]]) with (p_style (Element t a s cs)).
    rewrite p_style_elem; destruct (p_css a s) as [a' s'].
    exact (style_paths_children cs [] t a' s' IH).
  - exact (style_paths_children cs [] t a s IH).
Qed.

(** The store-level loop over references into the fresh last root. *)
Lemma getHTML_loop (st : store) (x : node) (L : list (list nat)) :
  fold_left (fun st paragraph =>
               let st := set_style_at st paragraph "margin" "0px" in
               set_style_at st paragraph "padding" "0px")
            (map (fun p => (length st, p)) L) (st ++ [x])
  = st ++ [style_paths x L].
Proof.
  revert x; induction L as [|p L IH]; intros x; simpl; [reflexivity|].
  unfold set_style_at, store_update; simpl.
  rewrite !update_nth_app_length, update_at_compose.
  apply IH.
Qed.

(** [getHTML] when the editor contents element is found: it appends one
    detached [div] holding the normalised parse of the contents'
    [innerHTML], and returns that copy's serialisation. *)
Lemma getHTML_found (parse : string -> list node) (st : store) (el r : ref) :
  querySelector st el (SelClass "ql-editor") = Some r ->
  exists t a s cs,
    deref st r = Some (Element t a s cs)
    /\ getHTML parse st el
       = Ok (st ++ [Element "div" [] [] (map pnorm (parse (inner_html t cs)))])
            (inner_html "div" (map pnorm (parse (inner_html t cs)))).
Proof.
  intros Q.
  destruct (querySelector_sound _ _ _ _ Q) as [[t a s cs|d] [D M]];
    [|discriminate].
  exists t, a, s, cs; split; [exact D|].
  unfold getHTML; rewrite Q; simpl.
  replace (get_innerHTML (st ++ [Element "div" [] [] []]) r) with (inner_html t cs)
    by (unfold get_innerHTML; rewrite deref_snoc by congruence; rewrite D; reflexivity).
  unfold set_innerHTML, store_update; simpl.
  rewrite update_nth_app_length; simpl.
  unfold querySelectorAll, deref; simpl.
  rewrite nth_error_app2, Nat.sub_diag by lia; simpl.
  rewrite getHTML_loop.
  set (cs' := parse (inner_html t cs)).
  assert (F : Forall (fun ch => style_paths ch (match_paths (SelTag "p") ch) = pnorm ch) cs')
    by (apply Forall_forall; intros; apply style_paths_pnorm).
  pose proof (style_paths_children cs' [] "div" [] [] F) as E; simpl in E.
  rewrite E.
  unfold get_innerHTML, deref; simpl; rewrite nth_error_snoc_length; reflexivity.
Qed.

(** ** Inline style declarations *)

Lemma decls_eqb_eq (s1 s2 : decls) : decls_eqb s1 s2 = true -> s1 = s2.
Proof.
  revert s2; induction s1 as [|[k1 v1] s1 IH]; intros [|[k2 v2] s2]; simpl;
    try discriminate; [reflexivity|].
  intros E; apply andb_prop in E as [E E3]; apply andb_prop in E as [E1 E2].
  apply String.eqb_eq in E1, E2; subst; f_equal; apply IH, E3.
Qed.

(** The declarations after [el.style[prop] = value] do not depend on
    whether the attribute was rewritten. *)
Lemma css_set_decls (prop value : string) (a : list attr) (s : decls) :
  snd (css_set prop value a s) = set_property s prop value.
Proof.
  unfold css_set; destruct (decls_eqb (set_property s prop value) s) eqn:E;
    [|reflexivity].
  symmetry; apply decls_eqb_eq, E.
Qed.

Lemma style_set_nonempty (s : decls) (k v : string) : style_set s k v <> [].
Proof.
  unfold style_set; destruct (existsb _ s) eqn:E.
  - destruct s; [discriminate | simpl; discriminate].
  - destruct s; simpl; discriminate.
Qed.

Lemma set_property_nonempty (s : decls) (prop value : string) :
  set_property s prop value <> [].
Proof.
  unfold set_property.
  assert (L : longhands prop <> []).
  { unfold longhands; destruct (_ || _); discriminate. }
  revert s L; induction (longhands prop) as [|l ls IH]; intros s L; [contradiction L; reflexivity|].
  simpl; destruct ls as [|l' ls']; [apply style_set_nonempty|].
  apply IH; discriminate.
Qed.

Lemma set_style_attr_has (a : list attr) (text : string) :
  has_style_attr (set_style_attr a text) = true.
Proof.
  unfold set_style_attr; destruct (has_style_attr a) eqn:H.
  - unfold has_style_attr in *; induction a as [|x a IH]; simpl in *; [discriminate|].
    destruct x; simpl in *; [exact (IH H) | reflexivity].
  - unfold has_style_attr; rewrite existsb_app; simpl; apply orb_true_r.
Qed.

Lemma css_set_has (prop value : string) (a : list attr) (s : decls) :
  (s <> [] -> has_style_attr a = true) ->
  has_style_attr (fst (css_set prop value a s)) = true.
Proof.
  intros H; unfold css_set.
  destruct (decls_eqb (set_property s prop value) s) eqn:E; simpl.
  - apply H; apply decls_eqb_eq in E; rewrite <- E; apply set_property_nonempty.
  - apply set_style_attr_has.
Qed.

Lemma style_set_uniform (s : decls) (k v : string) :
  style_uniform (style_set s k v) k v = true.
Proof.
  unfold style_set, style_uniform; destruct (existsb _ s) eqn:E.
  - clear E; induction s as [|[k' v'] s IH]; simpl; [reflexivity|].
    destruct (String.eqb k' k) eqn:K; simpl.
    + rewrite !String.eqb_refl; exact IH.
    + rewrite K; exact IH.
  - induction s as [|[k' v'] s IH]; simpl in *.
    + rewrite !String.eqb_refl; reflexivity.
    + destruct (String.eqb k' k) eqn:K; [discriminate|]; simpl; exact (IH E).
Qed.

Lemma style_set_uniform_other (s : decls) (k v k2 v2 : string) :
  String.eqb k2 k = false -> style_uniform s k v = true ->
  style_uniform (style_set s k2 v2) k v = true.
Proof.
  intros N U; unfold style_set, style_uniform in *.
  destruct (existsb (fun kv => String.eqb (fst kv) k2) s) eqn:E.
  - clear E; induction s as [|[k' v'] s IH]; simpl in *; [reflexivity|].
    apply andb_prop in U as [U1 U2].
    destruct (String.eqb k' k2) eqn:K; simpl.
    + rewrite N; exact (IH U2).
    + rewrite U1; exact (IH U2).
  - rewrite forallb_app, U; simpl; rewrite N; reflexivity.
Qed.

Lemma style_set_has (s : decls) (k v : string) :
  existsb (fun kv => String.eqb (fst kv) k) (style_set s k v) = true.
Proof.
  unfold style_set; destruct (existsb _ s) eqn:E.
  - induction s as [|[k' v'] s IH]; simpl in *; [discriminate|].
    destruct (String.eqb k' k) eqn:K; simpl.
    + rewrite String.eqb_refl; reflexivity.
    + rewrite K; exact (IH E).
  - rewrite existsb_app; simpl; rewrite String.eqb_refl, orb_true_r; reflexivity.
Qed.

Lemma style_set_has_other (s : decls) (k k2 v2 : string) :
  String.eqb k2 k = false ->
  existsb (fun kv => String.eqb (fst kv) k) s = true ->
  existsb (fun kv => String.eqb (fst kv) k) (style_set s k2 v2) = true.
Proof.
  intros N H; unfold style_set.
  destruct (existsb (fun kv => String.eqb (fst kv) k2) s) eqn:E.
  - clear E; revert H; induction s as [|[k' v'] s IH]; simpl; intros H; [discriminate|].
    destruct (String.eqb k' k) eqn:K; simpl.
    + apply String.eqb_eq in K; subst k'.
      destruct (String.eqb k k2) eqn:K2.
      * apply String.eqb_eq in K2; subst k2; rewrite String.eqb_refl in N; discriminate.
      * simpl; rewrite String.eqb_refl; reflexivity.
    + destruct (String.eqb k' k2); simpl; [rewrite N|rewrite K]; simpl; exact (IH H).
  - rewrite existsb_app, H; reflexivity.
Qed.

(** One longhand [k] after a run of settings to [0px] that includes it. *)
Lemma zero_after (s : decls) (ks : list string) (k : string) :
  In k ks ->
  existsb (fun kv => String.eqb (fst kv) k) (fold_left (fun s l => style_set s l "0px") ks s)
    = true
  /\ style_uniform (fold_left (fun s l => style_set s l "0px") ks s) k "0px" = true.
Proof.
  revert s; induction ks as [|l ks IH] using rev_ind; intros s Hin; [contradiction|].
  rewrite fold_left_app; simpl.
  destruct (String.eqb l k) eqn:L.
  - apply String.eqb_eq in L; subst l.
    split; [apply style_set_has | apply style_set_uniform].
  - apply in_app_or in Hin as [Hin|[E|[]]];
      [|subst l; rewrite String.eqb_refl in L; discriminate].
    destruct (IH s Hin) as [H1 H2].
    split; [apply style_set_has_other | apply style_set_uniform_other]; assumption.
Qed.

Lemma zero_box_p_css (a : list attr) (s : decls) : zero_box (snd (p_css a s)) = true.
Proof.
  unfold p_css.
  pose proof (css_set_decls "margin" "0px" a s) as E1.
  destruct (css_set "margin" "0px" a s) as [a1 s1]; simpl in E1; subst s1.
  rewrite css_set_decls; unfold set_property.
  rewrite <- fold_left_app.
  unfold zero_box; apply forallb_forall; intros k Hk.
  destruct (zero_after s (longhands "margin" ++ longhands "padding") k Hk) as [H1 H2].
  rewrite H1, H2; reflexivity.
Qed.

Lemma has_style_attr_p_css (a : list attr) (s : decls) :
  (s <> [] -> has_style_attr a = true) -> has_style_attr (fst (p_css a s)) = true.
Proof.
  intros H; unfold p_css.
  pose proof (css_set_has "margin" "0px" a s H) as H1.
  destruct (css_set "margin" "0px" a s) as [a1 s1]; simpl in H1.
  apply css_set_has; intros _; exact H1.
Qed.

Lemma p_zeroed_pnorm (n : node) : style_wf n = true -> p_zeroed (pnorm n) = true.
Proof.
  induction n as [d|t a s cs IH] using node_ind_all; intros W; [reflexivity|].
  cbn [style_wf] in W; apply andb_prop in W as [W1 W2].
  cbn [pnorm].
  assert (C : forallb p_zeroed (map pnorm cs) = true).
  { apply forallb_forall; intros m Hm.
    apply in_map_iff in Hm as [ch [<- Hch]].
    rewrite Forall_forall in IH; apply IH; [exact Hch|].
    rewrite forallb_forall in W2; apply W2, Hch. }
  destruct (String.eqb t "p") eqn:T.
  - pose proof (zero_box_p_css a s) as Z.
    assert (Hs : s <> [] -> has_style_attr a = true)
      by (intros N; destruct s; [contradiction N; reflexivity | exact W1]).
    pose proof (has_style_attr_p_css a s Hs) as HA.
    destruct (p_css a s) as [a' s']; simpl in *.
    rewrite T, Z, HA, C; reflexivity.
  - simpl; rewrite T, C; reflexivity.
Qed.

(** ** [getHTML] *)

(** C4: [getHTML] throws exactly when [targetEl.querySelector(".ql-editor")]
    finds nothing; otherwise it returns normally. *)
Theorem getHTML_throws_iff (parse : string -> list node) (st : store) (el : ref) :
  ((exists msg, getHTML parse st el = Throw msg)
     <-> querySelector st el (SelClass "ql-editor") = None)
  /\ ((exists st' html, getHTML parse st el = Ok st' html)
     <-> querySelector st el (SelClass "ql-editor") <> None).
Proof.
  unfold getHTML; destruct (querySelector st el (SelClass "ql-editor")) as [r|];
    simpl; split; split.
  - intros [msg H]; discriminate.
  - discriminate.
  - intros _; discriminate.
  - intros _; eauto.
  - intros _; reflexivity.
  - intros _; eauto.
  - intros [st' [html H]]; discriminate.
  - intros N; contradiction N; reflexivity.
Qed.

(** C5: when the editor contents element is present, [getHTML] returns
    the serialisation of the parse of its [innerHTML] in which every [p]
    element has gone through [style.margin = 0] and [style.padding = 0]
    ([pnorm]); every [p] element of what is serialised then carries a
    [style] attribute, each of the eight margin and padding longhands is
    declared, and each declaration of them is [0px] ([p_zeroed]).  The
    parser is any function whose trees keep the [style] attribute and
    the declarations in step. *)
Theorem getHTML_paragraphs_zeroed (parse : string -> list node) (st : store) (el r : ref) :
  (forall html, forallb style_wf (parse html) = true) ->
  querySelector st el (SelClass "ql-editor") = Some r ->
  exists t a s cs st',
    deref st r = Some (Element t a s cs)
    /\ getHTML parse st el = Ok st' (inner_html "div" (map pnorm (parse (inner_html t cs))))
    /\ forallb p_zeroed (map pnorm (parse (inner_html t cs))) = true.
Proof.
  intros P Q.
  destruct (getHTML_found parse st el r Q) as [t [a [s [cs [D G]]]]].
  eexists t, a, s, cs, _.
  split; [exact D | split; [exact G|]].
  apply forallb_forall; intros m Hm.
  apply in_map_iff in Hm as [ch [<- Hch]]; apply p_zeroed_pnorm.
  specialize (P (inner_html t cs)); rewrite forallb_forall in P; apply P, Hch.
Qed.

Lemma getHTML_paragraphs_zeroed_witness :
  (forall html, forallb style_wf (demo_parse html) = true)
  /\ querySelector demo_page (0%nat, []) (SelClass "ql-editor") = Some (0%nat, [0%nat])
  /\ exists t a s cs st',
       deref demo_page (0%nat, [0%nat]) = Some (Element t a s cs)
       /\ getHTML demo_parse demo_page (0%nat, [])
          = Ok st' (inner_html "div" (map pnorm (demo_parse (inner_html t cs))))
       /\ forallb p_zeroed (map pnorm (demo_parse (inner_html t cs))) = true.
Proof.
  assert (P : forall html, forallb style_wf (demo_parse html) = true)
    by (intros html; unfold demo_parse; destruct (String.eqb _ _); reflexivity).
  split; [exact P|]; split; [reflexivity|].
  apply (getHTML_paragraphs_zeroed demo_parse demo_page (0%nat, []) (0%nat, [0%nat]) P).
  reflexivity.
Defined.

(** C10: [getHTML] only adds the detached [div] it creates: every root
    alive before the call, the editor's DOM included, is unchanged, and
    a second call returns the same string. *)
Theorem getHTML_observation_only (parse : string -> list node) (st : store) (el : ref)
  (st' : store) (html : string) :
  getHTML parse st el = Ok st' html ->
  exists tmp, st' = st ++ [tmp] /\ getHTML parse st' el = Ok (st' ++ [tmp]) html.
Proof.
  intros G.
  destruct (querySelector st el (SelClass "ql-editor")) as [r|] eqn:Q;
    [|unfold getHTML in G; rewrite Q in G; discriminate].
  destruct (getHTML_found parse st el r Q) as [t [a [s [cs [D G']]]]].
  rewrite G' in G; injection G as <- <-.
  eexists; split; [reflexivity|].
  assert (Q' : querySelector (st ++ [Element "div" [] [] (map pnorm (parse (inner_html t cs)))])
                 el (SelClass "ql-editor") = Some r).
  { unfold querySelector; rewrite querySelectorAll_snoc; [exact Q|].
    eapply querySelector_deref; exact Q. }
  destruct (getHTML_found parse _ el r Q') as [t' [a' [s' [cs' [D' G'']]]]].
  rewrite deref_snoc in D' by congruence.
  rewrite D in D'; injection D' as <- <- <- <-.
  exact G''.
Qed.

Lemma getHTML_observation_only_witness :
  exists st' html,
    getHTML demo_parse demo_page (0%nat, []) = Ok st' html
    /\ exists tmp, st' = demo_page ++ [tmp]
                   /\ getHTML demo_parse st' (0%nat, []) = Ok (st' ++ [tmp]) html.
Proof.
  do 2 eexists; split; [reflexivity|].
  apply (getHTML_observation_only demo_parse demo_page (0%nat, [])).
  reflexivity.
Defined.

(** A paragraph with a margin longhand, as in [<p style="margin-top: 5px">]:
    [margin-top] is set in place and the other longhands are added, so
    the exported paragraph reads [margin: 0px; padding: 0px;]. *)
Example pnorm_margin_longhand :
  serialize false (pnorm (Element "p" [AttrStyle "margin-top: 5px;"]
                            [("margin-top", "5px")] [Text "x"]))
  = ("<p style=" ++ dq ++ "margin: 0px; padding: 0px;" ++ dq ++ ">x</p>")%string.
Proof. vm_compute; reflexivity. Qed.

(** The export of [demo_page]. *)
Example getHTML_demo_page :
  getHTML demo_parse demo_page (0%nat, [])
  = Ok (demo_page ++ [Element "div" [] [] (map pnorm demo_contents)])
       ("<p style=" ++ dq ++ "margin: 0px; padding: 0px;" ++ dq ++ ">Hello</p>"
        ++ "<p style=" ++ dq ++ "margin: 0px; padding: 0px;" ++ dq ++ ">A &amp; B</p>"
        ++ "<p class=" ++ dq ++ "ql-align-center" ++ dq ++ " style=" ++ dq
        ++ "color: red; margin: 0px; padding: 0px;" ++ dq ++ "><br></p>")%string.
Proof. vm_compute; reflexivity. Qed.

(** ** The constructor's [Link.sanitize] assignment *)

Lemma nth_error_update_nth_same {A} (l : list A) (i : nat) (f : A -> A) (x : A) :
  nth_error l i = Some x -> nth_error (update_nth l i f) i = Some (f x).
Proof.
  revert i; induction l as [|y l IH]; intros [|i] E; simpl in *; try discriminate.
  - now injection E as ->.
  - now apply IH.
Qed.

(** C6: when Quill's registries hold the link class [cls], constructing a
    facade assigns [sanitize] on that shared class object: afterwards
    every widget instance, those built by other code before and after
    included, stores [sanitize url] for a link to [url]; the facade
    record itself holds no sanitizer. *)
Theorem new_Editor_global_sanitize (lib : library) (el : ref) (cls : nat) :
  quill_import lib "formats/link" = Some cls ->
  assoc "link" (blots lib) = Some cls ->
  (cls < length (classes lib))%nat ->
  exists lib',
    new_Editor lib el
      = Ok lib' {| targetEl := el; _quill := length (instances lib); _emitter := [] |}
    /\ instances lib' = instances lib ++ [{| qi_container := el; qi_by_facade := true |}]
    /\ (forall inst url, In inst (instances lib') -> link_href lib' inst url = Some (sanitize url))
    /\ (forall el' url,
          link_href (quill_new lib' el' false)
                    {| qi_container := el'; qi_by_facade := false |} url
          = Some (sanitize url)).
Proof.
  intros I B L.
  apply nth_error_Some in L.
  destruct (nth_error (classes lib) cls) as [c|] eqn:C; [|contradiction L; reflexivity].
  unfold new_Editor; unfold quill_import in *; simpl; rewrite I.
  eexists; split; [reflexivity|].
  split; [reflexivity|].
  split.
  - intros inst url _; unfold link_href; simpl; rewrite B.
    erewrite nth_error_update_nth_same by exact C; reflexivity.
  - intros el' url; unfold link_href; simpl; rewrite B.
    erewrite nth_error_update_nth_same by exact C; reflexivity.
Qed.

Lemma new_Editor_global_sanitize_witness :
  quill_import quill_default "formats/link" = Some 1%nat
  /\ assoc "link" (blots quill_default) = Some 1%nat
  /\ (1 < length (classes quill_default))%nat
  /\ exists lib',
    new_Editor quill_default (1%nat, [])
      = Ok lib' {| targetEl := (1%nat, []); _quill := length (instances quill_default);
                   _emitter := [] |}
    /\ instances lib' = instances quill_default
                        ++ [{| qi_container := (1%nat, []); qi_by_facade := true |}]
    /\ (forall inst url, In inst (instances lib') -> link_href lib' inst url = Some (sanitize url))
    /\ (forall el' url,
          link_href (quill_new lib' el' false)
                    {| qi_container := el'; qi_by_facade := false |} url
          = Some (sanitize url)).
Proof.
  split; [reflexivity|]; split; [reflexivity|]; split; [simpl; lia|].
  apply (new_Editor_global_sanitize quill_default (1%nat, []) 1%nat);
    [reflexivity | reflexivity | simpl; lia].
Defined.

(** ** Event forwarding *)

Lemma filter_filter {A} (f g : A -> bool) (l : list A) :
  filter f (filter g l) = filter (fun x => g x && f x) l.
Proof.
  induction l as [|x l IH]; simpl; [reflexivity|].
  destruct (g x); simpl; [destruct (f x); simpl; now rewrite IH | exact IH].
Qed.

(** The [emit] loop: every listener of the snapshot is called with the
    arguments, and the [once] listeners sharing a handler with a called
    [once] listener are removed. *)
Lemma ee_emit_loop (ev : string) (args : list jsval) (L : list listener)
    (em : emitter) (calls : list invocation) :
  fold_left
    (fun acc l =>
       let '(em, calls) := acc in
       let em := if l_once l then ee_removeListener em ev (l_fn l) true else em in
       (em, calls ++ [(l_fn l, args)]))
    L (em, calls)
  = (filter (fun x => negb (String.eqb (l_event x) ev && l_once x
                            && existsb (fun l => l_once l && Nat.eqb (l_fn x) (l_fn l)) L)) em,
     calls ++ map (fun l => (l_fn l, args)) L).
Proof.
  revert em calls; induction L as [|l L IH]; intros em calls; simpl.
  - rewrite app_nil_r; f_equal.
    induction em as [|x em IHem]; simpl; [reflexivity|].
    rewrite andb_false_r; simpl; f_equal; exact IHem.
  - rewrite IH, <- app_assoc; f_equal.
    destruct (l_once l) eqn:O.
    + unfold ee_removeListener; rewrite filter_filter; apply filter_ext; intros x.
      destruct (String.eqb (l_event x) ev), (l_once x),
               (Nat.eqb (l_fn x) (l_fn l)), (existsb _ L); reflexivity.
    + apply filter_ext; intros x; reflexivity.
Qed.

Lemma ee_emit_eq (em : emitter) (ev : string) (args : list jsval) :
  ee_emit em ev args
  = (filter (fun l => negb (String.eqb (l_event l) ev && l_once l)) em,
     map (fun l => (l_fn l, args)) (filter (fun l => String.eqb (l_event l) ev) em)).
Proof.
  unfold ee_emit; rewrite ee_emit_loop; f_equal.
  apply filter_ext_in; intros x Hx.
  destruct (String.eqb (l_event x) ev) eqn:Ev, (l_once x) eqn:O; simpl; try reflexivity.
  replace (existsb _ _) with true; [reflexivity|].
  symmetry; apply existsb_exists; exists x; split.
  - apply filter_In; auto.
  - rewrite O, Nat.eqb_refl; reflexivity.
Qed.

(** C7 (amended): for each change notification Quill reports, the facade
    emits ["text-change"] once, with no arguments whatever Quill passed:
    each registration for ["text-change"] is called once, in registration
    order (a handler registered twice is called twice; handlers for other
    event names are not called), and the [once] registrations for
    ["text-change"] are dropped. *)
Theorem text_change_forwarded (ed : editor) (delta oldDelta source : jsval) :
  on_quill_text_change ed delta oldDelta source
  = ({| targetEl := targetEl ed; _quill := _quill ed;
        _emitter := filter (fun l => negb (String.eqb (l_event l) "text-change" && l_once l))
                           (_emitter ed) |},
     map (fun l => (l_fn l, []))
         (filter (fun l => String.eqb (l_event l) "text-change") (_emitter ed))).
Proof. unfold on_quill_text_change; rewrite ee_emit_eq; reflexivity. Qed.

(** C7 counterexample: a handler registered twice with [on] is called
    twice per notification, and a handler registered for
    ["content-changed"] is never called. *)
Lemma text_change_double_registration :
  snd (on_quill_text_change (on (on fresh_editor "text-change" 7) "text-change" 7)
                            JUndef JUndef JUndef)
    = [(7%nat, []); (7%nat, [])]
  /\ snd (on_quill_text_change (on fresh_editor "content-changed" 7) JUndef JUndef JUndef)
    = [].
Proof. split; reflexivity. Qed.

(** * Further properties of the wrapper *)

(** ** [sanitize] only prepends *)

(** [Link.sanitize] never drops or changes a character of the URL: its
    result is the URL with [""] or ["https://"] in front, and it always
    starts with ["http"]. *)
Theorem sanitize_prepends_only (url : string) :
  String.prefix "http" (sanitize url) = true
  /\ exists pre, sanitize url = (pre ++ url)%string /\ (pre = "" \/ pre = "https://").
Proof.
  rewrite sanitize_eq; destruct (String.prefix "http" url) eqn:E.
  - split; [exact E|]; exists ""; auto.
  - split; [reflexivity|]; exists "https://"; auto.
Qed.

(** ** [on], [once], [off] and the forwarded notification *)

Lemma map_filter_comm {A B} (f : A -> B) (p : B -> bool) (l : list A) :
  filter p (map f l) = map f (filter (fun x => p (f x)) l).
Proof.
  induction l as [|x l IH]; simpl; [reflexivity|].
  destruct (p (f x)); simpl; now rewrite IH.
Qed.

(** Registering with [on] adds the handler last to the calls of the next
    notification when the event is ["text-change"], and changes nothing
    for any other event name. *)
Theorem on_appends_call (ed : editor) (event : string) (h : nat) (d o s : jsval) :
  snd (on_quill_text_change (on ed event h) d o s)
  = snd (on_quill_text_change ed d o s)
    ++ (if String.eqb event "text-change" then [(h, [])] else []).
Proof.
  unfold on_quill_text_change, on, ee_on; simpl.
  rewrite !ee_emit_eq; simpl.
  rewrite filter_app, map_app; simpl.
  destruct (String.eqb event "text-change"); reflexivity.
Qed.

(** A [once] registration is called by the next notification and is gone
    after it: the listener list left behind is the one left by the same
    notification without the registration. *)
Theorem once_fires_once (ed : editor) (h : nat) (d o s : jsval) :
  snd (on_quill_text_change (once ed "text-change" h) d o s)
    = snd (on_quill_text_change ed d o s) ++ [(h, [])]
  /\ fst (on_quill_text_change (once ed "text-change" h) d o s)
    = fst (on_quill_text_change ed d o s).
Proof.
  unfold on_quill_text_change, once, ee_once; simpl.
  rewrite !ee_emit_eq; simpl.
  rewrite !filter_app, map_app; simpl; split; [reflexivity|].
  rewrite app_nil_r; reflexivity.
Qed.

(** After one notification, the next one calls exactly the [on]
    registrations for ["text-change"], in registration order. *)
Theorem second_notification_calls (ed : editor) (d o s d' o' s' : jsval) :
  snd (on_quill_text_change (fst (on_quill_text_change ed d o s)) d' o' s')
  = map (fun l => (l_fn l, []))
        (filter (fun l => String.eqb (l_event l) "text-change" && negb (l_once l))
                (_emitter ed)).
Proof.
  unfold on_quill_text_change; rewrite !ee_emit_eq; simpl; rewrite ?ee_emit_eq; simpl.
  f_equal; rewrite filter_filter; apply filter_ext; intros l.
  destruct (String.eqb (l_event l) "text-change"), (l_once l); reflexivity.
Qed.

(** [off("text-change", h)] removes every registration of [h] (with
    [on] or [once]) and keeps the calls to other handlers in order;
    [off("text-change")] silences the event. *)
Theorem off_removes_handler (ed : editor) (h : nat) (d o s : jsval) :
  snd (on_quill_text_change (off ed "text-change" (Some h)) d o s)
    = filter (fun c => negb (Nat.eqb (fst c) h)) (snd (on_quill_text_change ed d o s))
  /\ snd (on_quill_text_change (off ed "text-change" None) d o s) = [].
Proof.
  unfold on_quill_text_change, off, ee_removeListener; simpl.
  rewrite !ee_emit_eq; simpl; split.
  - rewrite map_filter_comm, !filter_filter; f_equal; apply filter_ext; intros l; simpl.
    destruct (String.eqb (l_event l) "text-change"), (Nat.eqb (l_fn l) h); reflexivity.
  - rewrite filter_filter.
    replace (filter _ (_emitter ed)) with (@nil listener); [reflexivity|].
    induction (_emitter ed) as [|l em IH]; simpl; [reflexivity|].
    destruct (String.eqb (l_event l) "text-change"); simpl; exact IH.
Qed.

(** ** What [getHTML] keeps *)

Lemma filter_set_style_attr (a : list attr) (text : string) :
  filter (fun x => negb (is_style_attr x)) (set_style_attr a text)
  = filter (fun x => negb (is_style_attr x)) a.
Proof.
  unfold set_style_attr; destruct (has_style_attr a).
  - induction a as [|x a IH]; simpl; [reflexivity|].
    destruct x; simpl; [f_equal; exact IH | exact IH].
  - rewrite filter_app; simpl; apply app_nil_r.
Qed.

Lemma filter_css_set (prop value : string) (a : list attr) (s : decls) :
  filter (fun x => negb (is_style_attr x)) (fst (css_set prop value a s))
  = filter (fun x => negb (is_style_attr x)) a.
Proof.
  unfold css_set; destruct (decls_eqb _ s); simpl; [reflexivity|].
  apply filter_set_style_attr.
Qed.

Lemma erase_p_styles_pnorm (n : node) : erase_p_styles (pnorm n) = erase_p_styles n.
Proof.
  induction n as [d|t a s cs IH] using node_ind_all; [reflexivity|].
  assert (M : map erase_p_styles (map pnorm cs) = map erase_p_styles cs).
  { rewrite map_map; apply map_ext_in; intros x Hx.
    rewrite Forall_forall in IH; apply IH, Hx. }
  cbn [pnorm]; destruct (String.eqb t "p") eqn:T.
  - unfold p_css.
    pose proof (filter_css_set "margin" "0px" a s) as F1.
    destruct (css_set "margin" "0px" a s) as [a1 s1]; simpl in F1.
    pose proof (filter_css_set "padding" "0px" a1 s1) as F2.
    destruct (css_set "padding" "0px" a1 s1) as [a2 s2]; simpl in F2.
    cbn [erase_p_styles]; rewrite T, M, F2, F1; reflexivity.
  - cbn [erase_p_styles]; rewrite T, M; reflexivity.
Qed.

(** [getHTML] changes nothing but the [style] attribute and the
    declarations of [p] elements: with those set aside, the nodes it
    serialises are the parse of the contents' [innerHTML] (tags, every
    other attribute in order, text, other elements' styles). *)
Theorem getHTML_changes_only_p_styles (parse : string -> list node) (st : store) (el r : ref) :
  querySelector st el (SelClass "ql-editor") = Some r ->
  exists t a s cs out st',
    deref st r = Some (Element t a s cs)
    /\ getHTML parse st el = Ok st' (inner_html "div" out)
    /\ map erase_p_styles out = map erase_p_styles (parse (inner_html t cs)).
Proof.
  intros Q.
  destruct (getHTML_found parse st el r Q) as [t [a [s [cs [D G]]]]].
  eexists t, a, s, cs, _, _.
  split; [exact D | split; [exact G|]].
  rewrite map_map; apply map_ext; apply erase_p_styles_pnorm.
Qed.

Lemma getHTML_changes_only_p_styles_witness :
  querySelector demo_page (0%nat, []) (SelClass "ql-editor") = Some (0%nat, [0%nat])
  /\ exists t a s cs out st',
    deref demo_page (0%nat, [0%nat]) = Some (Element t a s cs)
    /\ getHTML demo_parse demo_page (0%nat, []) = Ok st' (inner_html "div" out)
    /\ map erase_p_styles out = map erase_p_styles (demo_parse (inner_html t cs)).
Proof.
  split; [reflexivity|].
  apply (getHTML_changes_only_p_styles demo_parse demo_page (0%nat, []) (0%nat, [0%nat])).
  reflexivity.
Defined.
